(** * Verification of the PDF ingestion script [src/load_docs.py]

    Shallow embedding of [calculate_chunk_ids], [add_to_db],
    [clear_database] and [main], and proofs of their properties. *)

From Stdlib Require Import Ascii String Decimal DecimalString DecimalZ ZArith Sorted.
From stdpp Require Import base gmap list strings.

Open Scope string_scope.

(** ** Data model *)

(** Metadata values as they occur in a LangChain [Document]: the PDF
    loader stores the file path under ["source"] (a [str]) and the page
    number under ["page"] (an [int]). *)
Inductive pyval :=
| PStr (s : string)
| PInt (z : Z).

Global Instance pyval_eq_dec : EqDecision pyval.
Proof. solve_decision. Defined.

(** [langchain.schema.document.Document]: text plus a metadata dict. *)
Record Document := mkDocument {
  page_content : string;
  metadata : gmap string pyval
}.

(** Python's [str] on an [int]: its decimal representation. *)
Definition py_str_int (z : Z) : string :=
  NilEmpty.string_of_int (Z.to_int z).

(** [f"{v}"] where [v] is the result of [dict.get]: a missing key gives
    [None], printed as ["None"]. *)
Definition py_format (v : option pyval) : string :=
  match v with
  | None => "None"
  | Some (PStr s) => s
  | Some (PInt z) => py_str_int z
  end.

(** [chunk.metadata.get("source")], [chunk.metadata.get("page")]. *)
Definition get_source (c : Document) : option pyval := metadata c !! "source".
Definition get_page (c : Document) : option pyval := metadata c !! "page".

(** [page_id = f"{source}:{page}"] *)
Definition page_id_of (c : Document) : string :=
  py_format (get_source c) ++ ":" ++ py_format (get_page c).

(** [chunk.metadata["id"] = ...] *)
Definition set_id (c : Document) (id : string) : Document :=
  mkDocument (page_content c) (<["id" := PStr id]> (metadata c)).

(** ** [calculate_chunk_ids]

    The [for] loop, with the loop variables [last_page_id] (initially
    [None]) and [chunk_index] threaded through the recursion. *)
Fixpoint calculate_chunk_ids_loop (last_page_id : option string)
    (chunk_index : Z) (chunks : list Document) : list Document :=
  match chunks with
  | [] => []
  | chunk :: rest =>
      let page_id := page_id_of chunk in
      let chunk_index' :=
        if bool_decide (Some page_id = last_page_id)
        then (chunk_index + 1)%Z else 0%Z in
      set_id chunk (page_id ++ ":" ++ py_str_int chunk_index')
        :: calculate_chunk_ids_loop (Some page_id) chunk_index' rest
  end.

Definition calculate_chunk_ids (chunks : list Document) : list Document :=
  calculate_chunk_ids_loop None 0%Z chunks.

(** The id stored in a chunk's metadata, if it is a string. *)
Definition chunk_id (c : Document) : option string :=
  match metadata c !! "id" with
  | Some (PStr s) => Some s
  | _ => None
  end.

(** The ids assigned to a list of chunks. *)
Definition chunk_ids (chunks : list Document) : list (option string) :=
  map chunk_id (calculate_chunk_ids chunks).

(** A chunk with the given source and page. *)
Definition doc (text : string) (src : string) (page : Z) : Document :=
  mkDocument text (<["source" := PStr src]> (<["page" := PInt page]> ∅)).

(** A chunk whose metadata has a page but no source. *)
Definition page_only_doc (text : string) (page : Z) : Document :=
  mkDocument text (<["page" := PInt page]> ∅).

(** A chunk whose metadata lacks both keys. *)
Definition bare_doc (text : string) : Document := mkDocument text ∅.

(** ** The fold of the specification

    The spec describes [calculate_chunk_ids] as a left-to-right fold
    with a cursor (initially unset) and a counter (initially 0). *)
Record fold_state := mkFoldState {
  fs_done : list Document;        (* processed chunks, most recent first *)
  fs_cursor : option string;      (* "last page id" *)
  fs_counter : Z                  (* running counter *)
}.

Definition spec_step (st : fold_state) (chunk : Document) : fold_state :=
  let page_id := py_format (get_source chunk) ++ ":" ++ py_format (get_page chunk) in
  let counter :=
    match fs_cursor st with
    | Some cur => if String.eqb page_id cur then (fs_counter st + 1)%Z else 0%Z
    | None => 0%Z
    end in
  mkFoldState (set_id chunk (page_id ++ ":" ++ py_str_int counter) :: fs_done st)
              (Some page_id) counter.

Definition calculate_chunk_ids_spec (chunks : list Document) : list Document :=
  rev (fs_done (fold_left spec_step chunks (mkFoldState [] None 0%Z))).

(** ** Grouped processing order

    The key of a chunk is its [(source, page)] pair. The chunks are in
    grouped order when, after merging runs of equal consecutive keys, no
    key occurs twice. *)
Definition chunk_key (c : Document) : option pyval * option pyval :=
  (get_source c, get_page c).

Fixpoint collapse_from {A} `{EqDecision A} (last : option A) (l : list A) : list A :=
  match l with
  | [] => []
  | x :: r =>
      if bool_decide (Some x = last) then collapse_from (Some x) r
      else x :: collapse_from (Some x) r
  end.

Definition grouped (chunks : list Document) : Prop :=
  NoDup (collapse_from None (map chunk_key chunks)).

Global Instance grouped_dec chunks : Decision (grouped chunks).
Proof. unfold grouped. apply _. Defined.

(** Chunks as the PDF loader produces them: a string source and an
    integer page. *)
Definition loader_metadata (c : Document) : Prop :=
  (exists s, get_source c = Some (PStr s)) /\ (exists z, get_page c = Some (PInt z)).

(** ** The vector store and the driver

    The environment of one run of the script: the subdirectories of
    [data/] with the names of their entries, the result of
    [split_documents(load_documents(path))] for each PDF ([None] when the
    loader or the splitter raises), the persisted Chroma collection
    ([None] when [CHROMA_DIR] does not exist), and the observable events
    so far. The embedding function is not modelled. *)

Inductive message :=
| MsgClearing                       (* "Clearing existing database" *)
| MsgDirNotFound (dir : string)     (* "Directory not found: ..." *)
| MsgNoPdfs (dir : string)          (* "No PDF files found in: ..." *)
| MsgFound (n : nat) (dir : string) (* "Found n PDF(s) in ..." *)
| MsgFileName (name : string)       (* "  • name" *)
| MsgIngesting (name : string)      (* "Ingesting name" *)
| MsgAdding (n : nat)               (* "Adding n new chunks" *)
| MsgAllInDb.                       (* "All documents already in DB" *)

Inductive event :=
| EPrint (m : message)
| ERmTree                           (* shutil.rmtree(CHROMA_DIR) *)
| EConnect                          (* Chroma(persist_directory=...) *)
| EFetch (ids : list string)        (* db.get(include=[])["ids"] *)
| EAddDocuments (ids : list string). (* db.add_documents(new_chunks, ids=ids) *)

Inductive outcome := Returned | Raised.

Record world := mkWorld {
  w_dirs : gmap string (list string);
  w_chunks : string -> string -> option (list Document);
  w_store : option (gmap string Document);
  w_log : list event
}.

Definition store_contents (w : world) : gmap string Document :=
  default ∅ (w_store w).

Definition emit (e : event) (w : world) : world :=
  mkWorld (w_dirs w) (w_chunks w) (w_store w) (w_log w ++ [e])%list.

Definition set_store (s : option (gmap string Document)) (w : world) : world :=
  mkWorld (w_dirs w) (w_chunks w) s (w_log w).

(** [clear_database]: remove [CHROMA_DIR] if it exists. *)
Definition clear_database (w : world) : world :=
  match w_store w with
  | Some _ => emit ERmTree (set_store None w)
  | None => w
  end.

(** [c.metadata["id"]] raises [KeyError] when the key is missing; the
    ids are read as a whole list, as the list comprehension does. *)
Fixpoint metadata_ids (cs : list Document) : option (list string) :=
  match cs with
  | [] => Some []
  | c :: r =>
      match chunk_id c, metadata_ids r with
      | Some id, Some ids => Some (id :: ids)
      | _, _ => None
      end
  end.

(** Each document stored under its id. *)
Fixpoint insert_documents (docs : list Document) (ids : list string)
    (s : gmap string Document) : gmap string Document :=
  match docs, ids with
  | d :: ds, id :: is => insert_documents ds is (<[id := d]> s)
  | _, _ => s
  end.

(** [db.add_documents(docs, ids=ids)]: Chroma refuses a batch whose ids
    repeat ([DuplicateIDError]) and then stores nothing. *)
Definition add_documents (docs : list Document) (ids : list string)
    (s : gmap string Document) : option (gmap string Document) :=
  if bool_decide (NoDup ids) then Some (insert_documents docs ids s) else None.

(** [add_to_db]: connect (creating an empty collection when the directory
    is absent), fetch the existing ids, keep the chunks whose id is new,
    insert them under their ids and persist, or report that nothing is
    new. The [Chroma] class of [langchain_chroma] has no [persist] method:
    [db.persist()] raises [AttributeError] once the insert is done. *)
Definition add_to_db (chunks : list Document) (w : world) : outcome * world :=
  let store := store_contents w in
  let w := emit EConnect (set_store (Some store) w) in
  let existing := dom store in
  let w := emit (EFetch (elements existing)) w in
  let with_ids := calculate_chunk_ids chunks in
  match metadata_ids with_ids with
  | None => (Raised, w)
  | Some all_ids =>
      let new_pairs := filter (fun p => p.2 ∉ existing) (zip with_ids all_ids) in
      let new_chunks := map fst new_pairs in
      match new_chunks with
      | [] => (Returned, emit (EPrint MsgAllInDb) w)
      | _ :: _ =>
          let ids := map snd new_pairs in
          let w := emit (EPrint (MsgAdding (length new_chunks))) w in
          match add_documents new_chunks ids store with
          | None => (Raised, w)
          | Some s => (Raised, emit (EAddDocuments ids) (set_store (Some s) w))
          end
      end
  end.

(** [pdf_dir.glob("*.pdf")]: the entry names ending in [.pdf]. *)
Definition is_pdf (name : string) : bool :=
  let n := String.length name in
  (4 <=? n)%nat && String.eqb (String.substring (n - 4) 4 name) ".pdf".

(** [sorted(...)]: paths in one directory compare by their names. *)
Fixpoint insert_sorted (x : string) (l : list string) : list string :=
  match l with
  | [] => [x]
  | y :: r => if String.leb x y then x :: y :: r else y :: insert_sorted x r
  end.

Fixpoint sort_names (l : list string) : list string :=
  match l with
  | [] => []
  | x :: r => insert_sorted x (sort_names r)
  end.

Definition pdf_files (entries : list string) : list string :=
  sort_names (filter (fun n => is_pdf n = true) entries).

(** The [for pdf_path in pdf_files] loop; an exception ends the run. *)
Fixpoint ingest_files (dir : string) (files : list string) (w : world) : outcome * world :=
  match files with
  | [] => (Returned, w)
  | name :: rest =>
      let w := emit (EPrint (MsgIngesting name)) w in
      match w_chunks w dir name with
      | None => (Raised, w)
      | Some chunks =>
          match add_to_db chunks w with
          | (Returned, w) => ingest_files dir rest w
          | (Raised, w) => (Raised, w)
          end
      end
  end.

(** [main] after argument parsing: [reset] is [--reset], [dir] is [--dir]. *)
Definition main (reset : bool) (dir : string) (w : world) : outcome * world :=
  let w := if reset then clear_database (emit (EPrint MsgClearing) w) else w in
  match w_dirs w !! dir with
  | None => (Returned, emit (EPrint (MsgDirNotFound dir)) w)
  | Some entries =>
      match pdf_files entries with
      | [] => (Returned, emit (EPrint (MsgNoPdfs dir)) w)
      | files =>
          let w := emit (EPrint (MsgFound (length files) dir)) w in
          let w := fold_left (fun w p => emit (EPrint (MsgFileName p)) w) files w in
          ingest_files dir files w
      end
  end.

(** The ids of the first fetch in a list of events. *)
Fixpoint first_fetch (evs : list event) : option (list string) :=
  match evs with
  | [] => None
  | EFetch ids :: _ => Some ids
  | _ :: r => first_fetch r
  end.

(** The ids [calculate_chunk_ids] stores in the chunks, in order. *)
Definition computed_ids (chunks : list Document) : list string :=
  flat_map (fun c => option_list (chunk_id c)) (calculate_chunk_ids chunks).

(** The names of the files whose ingestion started, in log order. *)
Fixpoint ingested_names (evs : list event) : list string :=
  match evs with
  | [] => []
  | EPrint (MsgIngesting name) :: r => name :: ingested_names r
  | _ :: r => ingested_names r
  end.

(** The ids computed for the chunks of the listed files of [dir]. *)
Definition files_ids (w : world) (dir : string) (files : list string) : list string :=
  flat_map (fun f => match w_chunks w dir f with
                     | Some cs => computed_ids cs
                     | None => []
                     end) files.

(** The files of a list all load and bring no new id. *)
Definition all_known (w : world) (dir : string) (X : gset string) (files : list string) : Prop :=
  forall f, f ∈ files -> exists cs, w_chunks w dir f = Some cs /\
    Forall (fun id => id ∈ X) (computed_ids cs).

(** A sample run: [data/sample] holds two PDFs and a text file, each PDF
    splits into two chunks of page 0, and the store holds one of them. *)
Definition sample_world : world :=
  mkWorld (<["sample" := ["b.pdf"; "a.pdf"; "notes.txt"]]> ∅)
          (fun _ name => Some [doc "t" name 0; doc "u" name 0])
          (Some (<["a.pdf:0:0" := doc "t" "a.pdf" 0]> ∅)) [].

(** A store already holding the first chunk of [a.pdf]. *)
Definition known_world : world :=
  mkWorld ∅ (fun _ _ => None)
    (Some (<["a.pdf:0:0" := doc "x" "a.pdf" 0]> ∅)) [].

(** A data directory holding no PDF. *)
Definition text_only_world : world :=
  mkWorld (<["notes" := ["readme.txt"]]> ∅) (fun _ _ => None)
    (Some (<["a.pdf:0:0" := doc "x" "a.pdf" 0]> ∅)) [].

(** A run where [b.pdf] fails to load; the chunk of [a.pdf] is already
    stored. *)
Definition failing_world : world :=
  mkWorld (<["sample" := ["c.pdf"; "b.pdf"; "a.pdf"]]> ∅)
          (fun _ name => if String.eqb name "b.pdf" then None
                         else Some [doc "t" name 0])
          (Some (<["a.pdf:0:0" := set_id (doc "t" "a.pdf" 0) "a.pdf:0:0"]> ∅)) [].

(** The sample directory once every chunk of its PDFs is stored. *)
Definition loaded_world : world :=
  mkWorld (w_dirs sample_world) (w_chunks sample_world)
    (Some (<["b.pdf:0:1" := set_id (doc "u" "b.pdf" 0) "b.pdf:0:1"]>
          (<["b.pdf:0:0" := set_id (doc "t" "b.pdf" 0) "b.pdf:0:0"]>
          (<["a.pdf:0:1" := set_id (doc "u" "a.pdf" 0) "a.pdf:0:1"]>
          (<["a.pdf:0:0" := set_id (doc "t" "a.pdf" 0) "a.pdf:0:0"]> ∅))))) [].

(** ** Auxiliary functions for the proofs *)

(** The [page_id] computed from a [(source, page)] key. *)
Definition key_page_id (k : option pyval * option pyval) : string :=
  py_format k.1 ++ ":" ++ py_format k.2.

(** The [(page_id, chunk_index)] pairs the loop computes, on page ids. *)
Fixpoint id_pairs (last_page_id : option string) (chunk_index : Z)
    (pids : list string) : list (string * Z) :=
  match pids with
  | [] => []
  | p :: r =>
      let i := if bool_decide (Some p = last_page_id) then (chunk_index + 1)%Z else 0%Z in
      (p, i) :: id_pairs (Some p) i r
  end.

Definition render_id (pk : string * Z) : option string :=
  Some (pk.1 ++ ":" ++ py_str_int pk.2).

Fixpoint no_colon (s : string) : bool :=
  match s with
  | EmptyString => true
  | String a r => negb (Ascii.eqb a ":"%char) && no_colon r
  end.

(** ** General lemmas *)

Lemma string_app_nil (a : string) : "" ++ a = a.
Proof. reflexivity. Qed.

Lemma string_app_cons x (a b : string) : String x a ++ b = String x (a ++ b).
Proof. reflexivity. Qed.

Lemma string_app_assoc (a b c : string) : (a ++ b) ++ c = a ++ (b ++ c).
Proof. induction a as [|x a IH]; [reflexivity|]. rewrite !string_app_cons. now rewrite IH. Qed.

Lemma chunk_id_set_id c s : chunk_id (set_id c s) = Some s.
Proof. unfold chunk_id, set_id; simpl. now rewrite lookup_insert_eq. Qed.

Lemma loop_length last n chunks :
  length (calculate_chunk_ids_loop last n chunks) = length chunks.
Proof.
  revert last n; induction chunks as [|c r IH]; intros last n; simpl; [done|].
  now rewrite IH.
Qed.

Lemma spec_fold_loop chunks st :
  fs_done (fold_left spec_step chunks st)
  = (rev (calculate_chunk_ids_loop (fs_cursor st) (fs_counter st) chunks) ++ fs_done st)%list.
Proof.
  revert st; induction chunks as [|c r IH]; intros st; [done|].
  cbn [fold_left calculate_chunk_ids_loop rev]. rewrite IH, <- app_assoc.
  destruct st as [acc cur n]; unfold spec_step, page_id_of; cbn [fs_cursor fs_counter fs_done app].
  destruct cur as [cur|].
  - destruct (String.eqb_spec (py_format (get_source c) ++ ":" ++ py_format (get_page c)) cur)
      as [->|Hne].
    + rewrite bool_decide_true by done. reflexivity.
    + rewrite bool_decide_false by congruence. reflexivity.
  - rewrite bool_decide_false by congruence. reflexivity.
Qed.

(** The loop splits at any point of the list. *)
Lemma loop_app last n l1 l2 :
  exists last' n',
    calculate_chunk_ids_loop last n (l1 ++ l2)%list
    = (calculate_chunk_ids_loop last n l1 ++ calculate_chunk_ids_loop last' n' l2)%list.
Proof.
  revert last n; induction l1 as [|c r IH]; intros last n; simpl.
  - now exists last, n.
  - destruct (IH (Some (page_id_of c))
      (if bool_decide (Some (page_id_of c) = last) then (n + 1)%Z else 0%Z))
      as (last' & n' & Heq).
    exists last', n'. now rewrite Heq.
Qed.

(** On a run of chunks sharing one page id [p], once the cursor is [p]
    the index keeps increasing by one. *)
Lemma loop_same_run p n chunks :
  Forall (fun c => page_id_of c = p) chunks ->
  map chunk_id (calculate_chunk_ids_loop (Some p) n chunks)
  = map (fun k => Some (p ++ ":" ++ py_str_int (n + 1 + Z.of_nat k)%Z))
        (seq 0 (length chunks)).
Proof.
  revert n; induction chunks as [|c r IH]; intros n Hall; simpl; [done|].
  inversion Hall as [|? ? Hc Hr]; subst.
  rewrite bool_decide_true by done. rewrite chunk_id_set_id, IH by done.
  rewrite <- seq_shift, map_map. f_equal.
  - now rewrite Z.add_0_r.
  - apply map_ext; intros k.
    now replace (n + 1 + Z.of_nat (S k))%Z with (n + 1 + 1 + Z.of_nat k)%Z by lia.
Qed.


(** On a run sharing one page id, from any loop state, the indices are
    consecutive from some start. *)
Lemma loop_run_from last n p chunks :
  Forall (fun c => page_id_of c = p) chunks ->
  exists c0, map chunk_id (calculate_chunk_ids_loop last n chunks)
    = map (fun k => Some (p ++ ":" ++ py_str_int (c0 + Z.of_nat k)%Z))
          (seq 0 (length chunks)).
Proof.
  intros Hall. destruct chunks as [|c r]; [now exists 0%Z|].
  inversion Hall as [|? ? Hc Hr]; subst. simpl.
  rewrite chunk_id_set_id, loop_same_run by done.
  set (c0 := if bool_decide (Some (page_id_of c) = last) then (n + 1)%Z else 0%Z).
  exists c0. rewrite <- seq_shift, map_map, Z.add_0_r. f_equal.
  apply map_ext; intros k.
  now replace (c0 + 1 + Z.of_nat k)%Z with (c0 + Z.of_nat (S k))%Z by lia.
Qed.

Lemma lookup_map_list {A B} (f : A -> B) (l : list A) i :
  map f l !! i = f <$> (l !! i).
Proof. revert i; induction l as [|x l IH]; intros [|i]; simpl; auto. Qed.

(** Every chunk gets the id [page_id:k] for a non-negative [k]. *)
Lemma loop_lookup last n l i c :
  (0 <= n)%Z -> l !! i = Some c ->
  exists k, (0 <= k)%Z /\
    map chunk_id (calculate_chunk_ids_loop last n l) !! i
    = Some (Some (page_id_of c ++ ":" ++ py_str_int k)).
Proof.
  revert last n i; induction l as [|c' r IH]; intros last n i Hn Hi; [done|].
  destruct i as [|i]; simpl in Hi |- *.
  - injection Hi as <-. rewrite chunk_id_set_id.
    eexists; split; [|reflexivity]. case_bool_decide; lia.
  - apply IH; [case_bool_decide; lia | done].
Qed.

Lemma metadata_ids_loop last n chunks :
  metadata_ids (calculate_chunk_ids_loop last n chunks)
  = Some (flat_map (fun c => option_list (chunk_id c))
            (calculate_chunk_ids_loop last n chunks)).
Proof.
  revert last n; induction chunks as [|c r IH]; intros last n; [done|].
  simpl. rewrite chunk_id_set_id, IH. reflexivity.
Qed.

(** ** Uniqueness of the ids *)

Lemma no_colon_uint d : no_colon (NilEmpty.string_of_uint d) = true.
Proof. induction d; simpl; auto. Qed.

Lemma no_colon_py_str_int z : no_colon (py_str_int z) = true.
Proof.
  unfold py_str_int, NilEmpty.string_of_int.
  destruct (Z.to_int z); simpl; apply no_colon_uint.
Qed.

Lemma py_str_int_inj z1 z2 : py_str_int z1 = py_str_int z2 -> z1 = z2.
Proof.
  unfold py_str_int. intros H.
  assert (Heq : Some (Z.to_int z1) = Some (Z.to_int z2)).
  { now rewrite <- !NilEmpty.isi, H. }
  injection Heq as Heq. now rewrite <- (DecimalZ.of_to z1), <- (DecimalZ.of_to z2), Heq.
Qed.

Lemma no_colon_with_colon x y : no_colon (x ++ ":" ++ y) = false.
Proof. induction x as [|a x IH]; [reflexivity|]. rewrite string_app_cons; simpl. now rewrite IH, andb_false_r. Qed.

(** A string [p ++ ":" ++ s] with [s] free of colons splits at its last
    colon. *)
Lemma split_last_colon p1 p2 s1 s2 :
  no_colon s1 = true -> no_colon s2 = true ->
  p1 ++ ":" ++ s1 = p2 ++ ":" ++ s2 -> p1 = p2 /\ s1 = s2.
Proof.
  revert p2; induction p1 as [|a p1 IH]; intros [|b p2] H1 H2 H.
  - now injection H.
  - repeat rewrite ?string_app_nil, ?string_app_cons in H. injection H as <- Hs.
    assert (no_colon s1 = false) by (rewrite Hs; apply no_colon_with_colon). congruence.
  - repeat rewrite ?string_app_nil, ?string_app_cons in H. injection H as -> Hs.
    assert (no_colon s2 = false) by (rewrite <- Hs; apply no_colon_with_colon). congruence.
  - rewrite !string_app_cons in H. injection H as -> Hs.
    destruct (IH p2 H1 H2 Hs) as [-> ->]. done.
Qed.

Lemma render_id_inj pk1 pk2 : render_id pk1 = render_id pk2 -> pk1 = pk2.
Proof.
  destruct pk1 as [p1 k1], pk2 as [p2 k2]; unfold render_id; simpl. intros H.
  injection H as H.
  destruct (split_last_colon p1 p2 _ _ (no_colon_py_str_int k1) (no_colon_py_str_int k2) H)
    as [-> Hk].
  now rewrite (py_str_int_inj _ _ Hk).
Qed.

Lemma loop_id_pairs last n chunks :
  map chunk_id (calculate_chunk_ids_loop last n chunks)
  = map render_id (id_pairs last n (map page_id_of chunks)).
Proof.
  revert last n; induction chunks as [|c r IH]; intros last n; [done|].
  simpl. now rewrite chunk_id_set_id, IH.
Qed.

Lemma id_pairs_elem last n pids p k :
  (p, k) ∈ id_pairs last n pids -> p ∈ pids.
Proof.
  revert last n; induction pids as [|q r IH]; intros last n; simpl; [set_solver|].
  rewrite elem_of_cons. intros [Heq | Hin].
  - injection Heq as -> _. set_solver.
  - apply IH in Hin. set_solver.
Qed.

Lemma collapse_from_elem {A} `{EqDecision A} (last : option A) l x :
  x ∈ l -> x ∈ collapse_from last l \/ Some x = last.
Proof.
  revert last; induction l as [|y r IH]; intros last; [set_solver|].
  rewrite elem_of_cons. simpl. intros [-> | Hin]; case_bool_decide as Hy.
  - now right.
  - left. set_solver.
  - destruct (IH (Some y) Hin) as [? | Hxy]; [now left | injection Hxy as ->; now right].
  - destruct (IH (Some y) Hin) as [? | Hxy]; [left; set_solver | injection Hxy as ->; left; set_solver].
Qed.

Lemma collapse_from_sub {A} `{EqDecision A} (last : option A) l x :
  x ∈ collapse_from last l -> x ∈ l.
Proof.
  revert last; induction l as [|y r IH]; intros last; simpl; [done|].
  case_bool_decide; rewrite ?elem_of_cons; [|intros [-> | ?]]; eauto.
Qed.

(** Under grouped page ids, the [(page_id, index)] pairs are distinct;
    the pairs for the current cursor have an index above the counter. *)
Lemma id_pairs_nodup pids last n :
  NoDup (option_list last ++ collapse_from last pids)%list ->
  NoDup (id_pairs last n pids) /\
  (forall p k, (p, k) ∈ id_pairs last n pids -> Some p = last -> (n < k)%Z).
Proof.
  revert last n; induction pids as [|x r IH]; intros last n H; simpl in H |- *.
  - split; [constructor | set_solver].
  - destruct (decide (Some x = last)) as [Hx|Hx];
      [rewrite (bool_decide_true _ Hx) in H |- * | rewrite (bool_decide_false _ Hx) in H |- *];
      simpl in H.
    + subst last. destruct (IH (Some x) (n + 1)%Z H) as [Hnd Hlt].
      split.
      * constructor; [|done]. intros Hin. specialize (Hlt _ _ Hin eq_refl). lia.
      * intros p k Hin Hp. injection Hp as ->.
        apply elem_of_cons in Hin as [Heq | Hin]; [injection Heq as ->; lia|].
        specialize (Hlt _ _ Hin eq_refl). lia.
    + apply NoDup_app in H as (Hl & Hdis & Hr).
      destruct (IH (Some x) 0%Z Hr) as [Hnd Hlt].
      split.
      * constructor; [|done]. intros Hin. specialize (Hlt _ _ Hin eq_refl). lia.
      * intros p k Hin Hp. subst last.
        apply elem_of_cons in Hin as [Heq | Hin]; [injection Heq as -> _; done|].
        apply id_pairs_elem, (collapse_from_elem (Some x)) in Hin as [Hin | Hpx].
        -- exfalso. apply (Hdis p); simpl; set_solver.
        -- congruence.
Qed.

(** On keys where [key_page_id] is injective, merging runs commutes with
    computing page ids. *)
Lemma collapse_from_map (P : option pyval * option pyval -> Prop) last keys :
  (forall k1 k2, P k1 -> P k2 -> key_page_id k1 = key_page_id k2 -> k1 = k2) ->
  Forall P keys -> (forall k, last = Some k -> P k) ->
  collapse_from (key_page_id <$> last) (map key_page_id keys)
  = map key_page_id (collapse_from last keys).
Proof.
  intros Hinj. revert last; induction keys as [|k r IH]; intros last Hall Hlast; [done|].
  apply Forall_cons in Hall as [Hk Hr]. simpl.
  assert (Hiff : Some (key_page_id k) = key_page_id <$> last <-> Some k = last).
  { destruct last as [l|]; simpl; split; intros H; try discriminate.
    - injection H as H. f_equal. apply Hinj; auto.
    - now injection H as ->. }
  rewrite (bool_decide_ext _ _ Hiff).
  case_bool_decide; simpl; [|f_equal]; apply (IH (Some k)); auto; congruence.
Qed.

Lemma loader_key_page_id_inj k1 k2 :
  (exists s, k1.1 = Some (PStr s)) /\ (exists z, k1.2 = Some (PInt z)) ->
  (exists s, k2.1 = Some (PStr s)) /\ (exists z, k2.2 = Some (PInt z)) ->
  key_page_id k1 = key_page_id k2 -> k1 = k2.
Proof.
  destruct k1 as [s1 p1], k2 as [s2 p2]; simpl.
  intros [[x1 ->] [z1 ->]] [[x2 ->] [z2 ->]]. unfold key_page_id; simpl. intros H.
  destruct (split_last_colon _ _ _ _ (no_colon_py_str_int z1) (no_colon_py_str_int z2) H)
    as [-> Hz].
  now rewrite (py_str_int_inj _ _ Hz).
Qed.

Lemma page_id_of_key c : page_id_of c = key_page_id (chunk_key c).
Proof. reflexivity. Qed.

(** After two chunks with different page ids the counter is 0. *)
Lemma loop_reset last n l i c c' :
  l !! i = Some c -> l !! S i = Some c' -> page_id_of c <> page_id_of c' ->
  map chunk_id (calculate_chunk_ids_loop last n l) !! S i
  = Some (Some (page_id_of c' ++ ":0")).
Proof.
  revert last n i; induction l as [|x r IH]; intros last n i Hi Hi' Hne; [done|].
  destruct i as [|i]; simpl in Hi, Hi' |- *.
  - injection Hi as ->. destruct r as [|y r]; [done|]. injection Hi' as ->. simpl.
    rewrite bool_decide_false by congruence. now rewrite chunk_id_set_id.
  - eapply IH; eauto.
Qed.

(** ** Lemmas on the store and the driver *)

Lemma emit_store e w : w_store (emit e w) = w_store w.
Proof. reflexivity. Qed.

Lemma emit_log e w : w_log (emit e w) = (w_log w ++ [e])%list.
Proof. reflexivity. Qed.

Lemma first_fetch_app l1 l2 :
  first_fetch (l1 ++ l2)%list
  = match first_fetch l1 with Some ids => Some ids | None => first_fetch l2 end.
Proof.
  induction l1 as [|e l1 IH]; [done|]. destruct e; simpl; auto.
Qed.

(** Chunks all of whose ids are already stored are all filtered out. *)
Lemma filter_known_ids (X : gset string) l :
  Forall (fun c => exists id, chunk_id c = Some id /\ id ∈ X) l ->
  filter (fun p : Document * string => p.2 ∉ X)
         (zip l (flat_map (fun c => option_list (chunk_id c)) l)) = [].
Proof.
  induction l as [|c r IH]; intros Hall; [done|].
  apply Forall_cons in Hall as [(id & Hid & Hin) Hr]. simpl. rewrite Hid. simpl.
  rewrite filter_cons, decide_False by (simpl; set_solver). now apply IH.
Qed.

(** [add_to_db] connects, then fetches the ids of the current store. *)
Lemma add_to_db_log chunks w :
  exists evs, w_log (add_to_db chunks w).2
    = (w_log w ++ EConnect :: EFetch (elements (dom (store_contents w))) :: evs)%list.
Proof.
  unfold add_to_db. destruct (metadata_ids _) as [ids|];
    [destruct (map fst _); [|destruct (add_documents _ _ _)]|];
    simpl; rewrite <- ?app_assoc; simpl; eauto.
Qed.

Lemma ingest_files_log dir files w :
  exists evs, w_log (ingest_files dir files w).2 = (w_log w ++ evs)%list.
Proof.
  revert w; induction files as [|name rest IH]; intros w; simpl.
  - exists []. now rewrite app_nil_r.
  - destruct (w_chunks _ dir name) as [chunks|]; simpl.
    + destruct (add_to_db_log chunks (emit (EPrint (MsgIngesting name)) w)) as [evs1 Hevs1].
      destruct (add_to_db chunks _) as [[|] w1] eqn:Hadd; simpl in Hevs1 |- *.
      * destruct (IH w1) as [evs2 ->]. rewrite Hevs1, ?emit_log, <- !app_assoc. eauto.
      * rewrite Hevs1, ?emit_log, <- !app_assoc. eauto.
    + eauto.
Qed.

(** From an absent store, the first fetch of the ingestion loop sees no
    ids. *)
Lemma ingest_files_first_fetch dir files w :
  w_store w = None ->
  exists evs, w_log (ingest_files dir files w).2 = (w_log w ++ evs)%list /\
    (first_fetch evs = None \/ first_fetch evs = Some []).
Proof.
  intros Hs. destruct files as [|name rest]; simpl.
  - exists []. rewrite app_nil_r. auto.
  - destruct (w_chunks _ dir name) as [chunks|]; simpl.
    + destruct (add_to_db_log chunks (emit (EPrint (MsgIngesting name)) w)) as [evs1 Hevs1].
      unfold store_contents in Hevs1. rewrite emit_store, Hs in Hevs1. simpl in Hevs1.
      destruct (add_to_db chunks _) as [[|] w1] eqn:Hadd; simpl in Hevs1 |- *.
      * destruct (ingest_files_log dir rest w1) as [evs2 ->].
        rewrite Hevs1, ?emit_log, <- !app_assoc. eexists; split; [reflexivity|].
        right. reflexivity.
      * rewrite Hevs1, ?emit_log, <- !app_assoc. eexists; split; [reflexivity|].
        right. reflexivity.
    + eexists; split; [reflexivity|]. now left.
Qed.

Lemma print_names_store files w :
  w_store (fold_left (fun w p => emit (EPrint (MsgFileName p)) w) files w) = w_store w /\
  w_log (fold_left (fun w p => emit (EPrint (MsgFileName p)) w) files w)
  = (w_log w ++ map (fun p => EPrint (MsgFileName p)) files)%list.
Proof.
  revert w; induction files as [|p r IH]; intros w; simpl.
  - now rewrite app_nil_r.
  - rewrite (proj1 (IH _)), (proj2 (IH _)), emit_log, <- app_assoc. done.
Qed.

Lemma first_fetch_prints files :
  first_fetch (map (fun p => EPrint (MsgFileName p)) files) = None.
Proof. induction files; simpl; auto. Qed.

(** When [dir] is missing or holds no PDF, [main] prints the condition
    after the optional reset and stops there. *)
Lemma main_no_input_eq (reset : bool) (dir : string) (w : world) :
  (w_dirs w !! dir = None ->
   main reset dir w
   = (Returned, emit (EPrint (MsgDirNotFound dir))
                  (if reset then clear_database (emit (EPrint MsgClearing) w) else w))) /\
  (forall entries, w_dirs w !! dir = Some entries -> pdf_files entries = [] ->
   main reset dir w
   = (Returned, emit (EPrint (MsgNoPdfs dir))
                  (if reset then clear_database (emit (EPrint MsgClearing) w) else w))).
Proof.
  assert (Hd0 : w_dirs (if reset then clear_database (emit (EPrint MsgClearing) w) else w)
                = w_dirs w).
  { destruct reset; [|done]. unfold clear_database. rewrite emit_store.
    now destruct (w_store w). }
  unfold main. cbv zeta. rewrite Hd0. split.
  - intros Hd. now rewrite Hd.
  - intros entries Hd Hp. now rewrite Hd, Hp.
Qed.

(** * Claims *)

(** C1: [calculate_chunk_ids] is the left-to-right fold of the
    specification: cursor initially unset, counter initially 0; for each
    chunk, [page_id = source:page], the counter is incremented when
    [page_id] equals the cursor and reset to 0 otherwise, the chunk's id
    becomes [page_id:counter] and the cursor becomes [page_id]. *)
Theorem calculate_chunk_ids_is_spec_fold (chunks : list Document) :
  calculate_chunk_ids chunks = calculate_chunk_ids_spec chunks.
Proof.
  unfold calculate_chunk_ids_spec. rewrite spec_fold_loop; simpl.
  now rewrite app_nil_r, rev_involutive.
Qed.

(** C6: on chunks that all share one [(source, page)] pair the ids are
    [source:page:0], [source:page:1], ... in input order. *)
Theorem calculate_chunk_ids_single_group (src page : option pyval)
    (chunks : list Document) :
  Forall (fun c => get_source c = src /\ get_page c = page) chunks ->
  chunk_ids chunks
  = map (fun k => Some (py_format src ++ ":" ++ py_format page ++ ":"
                        ++ py_str_int (Z.of_nat k)))
        (seq 0 (length chunks)).
Proof.
  intros Hall. unfold chunk_ids, calculate_chunk_ids.
  destruct chunks as [|c r]; [done|].
  apply Forall_cons in Hall as [[Hs Hp] Hr]. simpl.
  rewrite chunk_id_set_id, loop_same_run.
  - rewrite <- seq_shift, map_map. unfold page_id_of. rewrite Hs, Hp.
    rewrite !string_app_assoc. f_equal.
    apply map_ext; intros k. rewrite !string_app_assoc.
    now replace (0 + 1 + Z.of_nat k)%Z with (Z.of_nat (S k)) by lia.
  - eapply Forall_impl; [exact Hr|]. intros c' [Hs' Hp'].
    unfold page_id_of. now rewrite Hs', Hp', Hs, Hp.
Qed.

(** C7: [calculate_chunk_ids] returns the chunks in the same order, each
    with its text unchanged and its metadata unchanged except for the key
    ["id"], which it sets. *)
Theorem calculate_chunk_ids_preserves_chunks (chunks : list Document) :
  Forall2 (fun c c' => page_content c' = page_content c /\
             exists id, metadata c' = <["id" := PStr id]> (metadata c))
          chunks (calculate_chunk_ids chunks).
Proof.
  unfold calculate_chunk_ids. generalize (@None string) 0%Z.
  induction chunks as [|c r IH]; intros last n; simpl; constructor; eauto.
Qed.

(** C10: chunks without ["source"] or ["page"] are handled without error:
    the missing value is printed as [None] in the id, and a run of
    consecutive chunks missing both keys shares one counter group, with
    ids [None:None:k] for consecutive [k]. *)
Theorem calculate_chunk_ids_missing_metadata (l1 l2 l3 : list Document) :
  Forall (fun c => get_source c = None /\ get_page c = None) l2 ->
  (forall i c, (l1 ++ l2 ++ l3)%list !! i = Some c ->
     exists k, (0 <= k)%Z /\
       chunk_ids (l1 ++ l2 ++ l3)%list !! i
       = Some (Some (py_format (get_source c) ++ ":" ++ py_format (get_page c)
                     ++ ":" ++ py_str_int k))) /\
  exists c0, forall k, k < length l2 ->
    chunk_ids (l1 ++ l2 ++ l3)%list !! (length l1 + k)
    = Some (Some ("None:None:" ++ py_str_int (c0 + Z.of_nat k)%Z)).
Proof.
  intros Hall. split.
  - intros i c Hi. destruct (loop_lookup None 0 _ i c ltac:(lia) Hi) as (k & Hk & Hid).
    exists k. split; [done|]. unfold chunk_ids, calculate_chunk_ids.
    rewrite Hid. unfold page_id_of. now rewrite string_app_assoc.
  - unfold chunk_ids, calculate_chunk_ids.
    destruct (loop_app None 0 l1 (l2 ++ l3)) as (last1 & n1 & ->).
    destruct (loop_app last1 n1 l2 l3) as (last2 & n2 & ->).
    destruct (loop_run_from last1 n1 "None:None" l2) as [c0 Hrun].
    { eapply Forall_impl; [exact Hall|]. intros c [Hs Hp].
      unfold page_id_of. now rewrite Hs, Hp. }
    exists c0. intros k Hk.
    rewrite !map_app, lookup_app_r by (rewrite length_map, loop_length; lia).
    rewrite length_map, loop_length, Nat.add_sub_swap, Nat.sub_diag by lia. simpl.
    rewrite lookup_app_l by (rewrite length_map, loop_length; lia).
    rewrite Hrun, lookup_map_list, lookup_seq_lt by done. reflexivity.
Qed.

(** C2 (as stated): in grouped order the ids are unique. Counterexample:
    a chunk whose source is the string ["None"] and one whose source is
    missing both print their page id as [None:0], so the grouped list
    below gets the id [None:0:0] twice. *)
Lemma calculate_chunk_ids_grouped_collision :
  grouped [doc "x" "None" 0; doc "y" "b.pdf" 0; page_only_doc "z" 0] /\
  chunk_ids [doc "x" "None" 0; doc "y" "b.pdf" 0; page_only_doc "z" 0]
  = [Some "None:0:0"; Some "b.pdf:0:0"; Some "None:0:0"] /\
  ~ NoDup (chunk_ids [doc "x" "None" 0; doc "y" "b.pdf" 0; page_only_doc "z" 0]).
Proof.
  split; [|split].
  - refine (bool_decide_unpack _ _). vm_compute. reflexivity.
  - vm_compute. reflexivity.
  - refine (bool_decide_unpack _ _). vm_compute. reflexivity.
Qed.

(** C2 (amended): for chunks whose source is a string and whose page is
    an integer, as the PDF loader produces them, in grouped order the ids
    are pairwise distinct, and the index is 0 at each group boundary. *)
Theorem calculate_chunk_ids_unique_grouped (chunks : list Document) :
  Forall loader_metadata chunks -> grouped chunks ->
  NoDup (chunk_ids chunks) /\
  (forall i c c', chunks !! i = Some c -> chunks !! S i = Some c' ->
     chunk_key c <> chunk_key c' ->
     chunk_ids chunks !! S i = Some (Some (page_id_of c' ++ ":0"))).
Proof.
  intros Hload Hgr.
  set (P := fun k : option pyval * option pyval =>
              (exists s, k.1 = Some (PStr s)) /\ (exists z, k.2 = Some (PInt z))).
  assert (HP : Forall P (map chunk_key chunks)) by (apply Forall_map; exact Hload).
  split.
  - unfold chunk_ids, calculate_chunk_ids. rewrite loop_id_pairs.
    apply NoDup_ListNoDup, NoDup_map_NoDup_ForallPairs.
    { intros x y _ _. apply render_id_inj. }
    apply NoDup_ListNoDup, (id_pairs_nodup _ None 0%Z). simpl.
    replace (map page_id_of chunks) with (map key_page_id (map chunk_key chunks))
      by (rewrite map_map; reflexivity).
    change (@None string) with (key_page_id <$> @None (option pyval * option pyval)).
    rewrite (collapse_from_map P) by (auto using loader_key_page_id_inj; discriminate).
    apply NoDup_ListNoDup, NoDup_map_NoDup_ForallPairs; [|apply NoDup_ListNoDup, Hgr].
    intros x y Hx Hy. apply loader_key_page_id_inj.
    + rewrite Forall_forall in HP. apply HP.
      eapply collapse_from_sub, list_elem_of_In, Hx.
    + rewrite Forall_forall in HP. apply HP.
      eapply collapse_from_sub, list_elem_of_In, Hy.
  - intros i c c' Hi Hi' Hne. unfold chunk_ids, calculate_chunk_ids.
    apply (loop_reset _ _ _ i c); [done | done |].
    rewrite !page_id_of_key. intros Heq. apply Hne.
    apply loader_key_page_id_inj; [| | done].
    + rewrite Forall_lookup in Hload. exact (Hload _ _ Hi).
    + rewrite Forall_lookup in Hload. exact (Hload _ _ Hi').
Qed.

(** C5: when groups are interleaved, two distinct chunks can get the same
    id, even with well-formed loader metadata. *)
Theorem calculate_chunk_ids_interleaved_collision :
  exists chunks i j c1 c2,
    chunks !! i = Some c1 /\ chunks !! j = Some c2 /\ i <> j /\
    page_content c1 <> page_content c2 /\
    Forall loader_metadata chunks /\ ~ grouped chunks /\
    chunk_ids chunks !! i = Some (Some "a.pdf:0:0") /\
    chunk_ids chunks !! j = Some (Some "a.pdf:0:0").
Proof.
  exists [doc "x" "a.pdf" 0; doc "y" "b.pdf" 0; doc "z" "a.pdf" 0], 0, 2,
    (doc "x" "a.pdf" 0), (doc "z" "a.pdf" 0).
  split; [done|]. split; [done|]. split; [done|]. split; [discriminate|].
  split; [|split; [|split]].
  - repeat constructor; unfold get_source, get_page, doc; simpl; eexists; reflexivity.
  - refine (bool_decide_unpack _ _). vm_compute. reflexivity.
  - vm_compute. reflexivity.
  - vm_compute. reflexivity.
Qed.

(** C3: when every recomputed id of the chunks is already in the store,
    [add_to_db] filters all of them out: it connects, fetches the existing
    ids, reports that all documents are already in the DB, and inserts
    nothing. *)
Theorem add_to_db_known_chunks (chunks : list Document) (w : world) :
  Forall (fun c => exists id, chunk_id c = Some id /\ id ∈ dom (store_contents w))
         (calculate_chunk_ids chunks) ->
  (add_to_db chunks w).1 = Returned /\
  w_store (add_to_db chunks w).2 = Some (store_contents w) /\
  w_log (add_to_db chunks w).2
  = (w_log w ++ [EConnect; EFetch (elements (dom (store_contents w)));
                 EPrint MsgAllInDb])%list.
Proof.
  intros Hall. unfold add_to_db.
  unfold calculate_chunk_ids in *. rewrite metadata_ids_loop.
  rewrite (filter_known_ids _ _ Hall). simpl.
  rewrite <- !app_assoc. auto.
Qed.

(** C4: when the ingestion directory is missing or holds no PDF, with
    or without [--reset], [main] prints the matching message
    ("Directory not found" or "No PDF files found") and returns normally;
    no connection to the store is made, and without [--reset] the store
    is left as it was. *)
Theorem main_no_input_returns (reset : bool) (dir : string) (w : world) (m : message) :
  (w_dirs w !! dir = None /\ m = MsgDirNotFound dir \/
   exists entries, w_dirs w !! dir = Some entries /\ pdf_files entries = [] /\
                   m = MsgNoPdfs dir) ->
  main reset dir w
  = (Returned, emit (EPrint m)
                 (if reset then clear_database (emit (EPrint MsgClearing) w) else w)) /\
  (exists evs, w_log (main reset dir w).2 = (w_log w ++ evs)%list /\ EConnect ∉ evs) /\
  (reset = false -> w_store (main reset dir w).2 = w_store w).
Proof.
  intros Hin.
  assert (Hmain : main reset dir w
                  = (Returned, emit (EPrint m)
                       (if reset then clear_database (emit (EPrint MsgClearing) w) else w))).
  { destruct (main_no_input_eq reset dir w) as [H1 H2].
    destruct Hin as [[Hd ->] | (entries & Hd & Hp & ->)]; [exact (H1 Hd) | exact (H2 _ Hd Hp)]. }
  rewrite Hmain. split; [done|]. split.
  - destruct reset; [unfold clear_database; rewrite emit_store; destruct (w_store w)|].
    all: simpl; eexists; split; [rewrite <- ?app_assoc; reflexivity|].
    all: intros Hc; apply list_elem_of_In in Hc; simpl in Hc; intuition discriminate.
  - intros ->. reflexivity.
Qed.

(** C8: with [--reset] the store is deleted before any processing, so
    the first fetch of existing ids in the run returns no id. *)
Theorem main_reset_first_fetch_empty (dir : string) (w : world) :
  exists evs, w_log (main true dir w).2 = (w_log w ++ evs)%list /\
    (first_fetch evs = None \/ first_fetch evs = Some []).
Proof.
  unfold main. cbv beta iota zeta.
  set (w0 := clear_database (emit (EPrint MsgClearing) w)).
  assert (Hs0 : w_store w0 = None).
  { unfold w0, clear_database. rewrite emit_store.
    destruct (w_store w) eqn:E; [reflexivity|]. now rewrite emit_store. }
  assert (Hl0 : exists pre, w_log w0 = (w_log w ++ pre)%list /\ first_fetch pre = None).
  { unfold w0, clear_database. rewrite emit_store. destruct (w_store w); simpl.
    - eexists; split; [now rewrite <- app_assoc | reflexivity].
    - eexists; split; [reflexivity | reflexivity]. }
  destruct Hl0 as (pre & Hl0 & Hpre).
  destruct (w_dirs w0 !! dir) as [entries|].
  - destruct (pdf_files entries) as [|f fs] eqn:Hp.
    + simpl. rewrite Hl0, <- app_assoc. eexists; split; [reflexivity|].
      rewrite first_fetch_app, Hpre. now left.
    + set (w1 := emit (EPrint (MsgFound (length (f :: fs)) dir)) w0).
      destruct (print_names_store (f :: fs) w1) as [Hs2 Hl2].
      destruct (ingest_files_first_fetch dir (f :: fs)
                  (fold_left (fun w p => emit (EPrint (MsgFileName p)) w) (f :: fs) w1))
        as (evs & Hl3 & Hev).
      { rewrite Hs2. exact Hs0. }
      rewrite Hl3, Hl2. unfold w1. rewrite emit_log, Hl0, <- !app_assoc.
      eexists; split; [reflexivity|].
      rewrite !first_fetch_app, Hpre. simpl. rewrite first_fetch_prints. exact Hev.
  - simpl. rewrite Hl0, <- app_assoc. eexists; split; [reflexivity|].
    rewrite first_fetch_app, Hpre. now left.
Qed.

(** C9: with [--reset] the store directory is deleted before the
    ingestion directory is checked: even when it is missing or holds no
    PDF, [main] returns normally with the store gone. *)
Theorem main_reset_no_input_store_gone (dir : string) (w : world) :
  (w_dirs w !! dir = None \/
   exists entries, w_dirs w !! dir = Some entries /\ pdf_files entries = []) ->
  (main true dir w).1 = Returned /\ w_store (main true dir w).2 = None.
Proof.
  intros Hd. unfold main. cbv beta iota zeta.
  assert (Hdirs : w_dirs (clear_database (emit (EPrint MsgClearing) w)) = w_dirs w)
    by (unfold clear_database; rewrite emit_store; now destruct (w_store w)).
  assert (Hs : w_store (clear_database (emit (EPrint MsgClearing) w)) = None)
    by (unfold clear_database; rewrite emit_store;
        destruct (w_store w) eqn:E; [reflexivity | now rewrite emit_store]).
  rewrite Hdirs.
  destruct Hd as [Hd | (entries & Hd & Hp)]; rewrite Hd; [|rewrite Hp]; simpl; auto.
Qed.

(** * Witnesses and examples *)

Example chunk_ids_sample :
  chunk_ids [doc "x" "a.pdf" 0; doc "y" "a.pdf" 0; doc "z" "a.pdf" 1;
             bare_doc "w"; bare_doc "v"]
  = [Some "a.pdf:0:0"; Some "a.pdf:0:1"; Some "a.pdf:1:0";
     Some "None:None:0"; Some "None:None:1"].
Proof. vm_compute. reflexivity. Qed.

Example main_sample :
  main false "sample" sample_world
  = (Raised,
     mkWorld (w_dirs sample_world) (w_chunks sample_world)
       (Some (<["a.pdf:0:1" := set_id (doc "u" "a.pdf" 0) "a.pdf:0:1"]>
             (<["a.pdf:0:0" := doc "t" "a.pdf" 0]> ∅)))
       [EPrint (MsgFound 2 "sample"); EPrint (MsgFileName "a.pdf");
        EPrint (MsgFileName "b.pdf"); EPrint (MsgIngesting "a.pdf");
        EConnect; EFetch ["a.pdf:0:0"]; EPrint (MsgAdding 1);
        EAddDocuments ["a.pdf:0:1"]]).
Proof. vm_compute. reflexivity. Qed.

Lemma calculate_chunk_ids_single_group_witness :
  Forall (fun c => get_source c = Some (PStr "a.pdf") /\ get_page c = Some (PInt 3))
         [doc "x" "a.pdf" 3; doc "y" "a.pdf" 3; doc "z" "a.pdf" 3] /\
  chunk_ids [doc "x" "a.pdf" 3; doc "y" "a.pdf" 3; doc "z" "a.pdf" 3]
  = map (fun k => Some (py_format (Some (PStr "a.pdf")) ++ ":"
                        ++ py_format (Some (PInt 3)) ++ ":" ++ py_str_int (Z.of_nat k)))
        (seq 0 3).
Proof.
  split; [repeat constructor|].
  apply calculate_chunk_ids_single_group. repeat constructor.
Defined.

Lemma calculate_chunk_ids_missing_metadata_witness :
  Forall (fun c => get_source c = None /\ get_page c = None) [bare_doc "y"; bare_doc "z"] /\
  ((forall i c, ([doc "x" "a.pdf" 0] ++ [bare_doc "y"; bare_doc "z"] ++ [doc "w" "a.pdf" 0])%list !! i = Some c ->
     exists k, (0 <= k)%Z /\
       chunk_ids ([doc "x" "a.pdf" 0] ++ [bare_doc "y"; bare_doc "z"] ++ [doc "w" "a.pdf" 0])%list !! i
       = Some (Some (py_format (get_source c) ++ ":" ++ py_format (get_page c)
                     ++ ":" ++ py_str_int k))) /\
  exists c0, forall k, k < length [bare_doc "y"; bare_doc "z"] ->
    chunk_ids ([doc "x" "a.pdf" 0] ++ [bare_doc "y"; bare_doc "z"] ++ [doc "w" "a.pdf" 0])%list
      !! (length [doc "x" "a.pdf" 0] + k)
    = Some (Some ("None:None:" ++ py_str_int (c0 + Z.of_nat k)%Z))).
Proof.
  split; [repeat constructor|].
  apply calculate_chunk_ids_missing_metadata. repeat constructor.
Defined.

Lemma calculate_chunk_ids_unique_grouped_witness :
  Forall loader_metadata [doc "x" "a.pdf" 0; doc "y" "a.pdf" 0; doc "z" "a.pdf" 1] /\
  grouped [doc "x" "a.pdf" 0; doc "y" "a.pdf" 0; doc "z" "a.pdf" 1] /\
  (NoDup (chunk_ids [doc "x" "a.pdf" 0; doc "y" "a.pdf" 0; doc "z" "a.pdf" 1]) /\
   (forall i c c', [doc "x" "a.pdf" 0; doc "y" "a.pdf" 0; doc "z" "a.pdf" 1] !! i = Some c ->
      [doc "x" "a.pdf" 0; doc "y" "a.pdf" 0; doc "z" "a.pdf" 1] !! S i = Some c' ->
      chunk_key c <> chunk_key c' ->
      chunk_ids [doc "x" "a.pdf" 0; doc "y" "a.pdf" 0; doc "z" "a.pdf" 1] !! S i
      = Some (Some (page_id_of c' ++ ":0")))).
Proof.
  assert (Hl : Forall loader_metadata [doc "x" "a.pdf" 0; doc "y" "a.pdf" 0; doc "z" "a.pdf" 1]).
  { repeat constructor; eexists; reflexivity. }
  assert (Hg : grouped [doc "x" "a.pdf" 0; doc "y" "a.pdf" 0; doc "z" "a.pdf" 1]).
  { refine (bool_decide_unpack _ _). vm_compute. reflexivity. }
  split; [exact Hl|]. split; [exact Hg|].
  exact (calculate_chunk_ids_unique_grouped _ Hl Hg).
Defined.


Lemma add_to_db_known_chunks_witness :
  Forall (fun c => exists id, chunk_id c = Some id /\ id ∈ dom (store_contents known_world))
         (calculate_chunk_ids [doc "x" "a.pdf" 0]) /\
  (add_to_db [doc "x" "a.pdf" 0] known_world).1 = Returned /\
  w_store (add_to_db [doc "x" "a.pdf" 0] known_world).2 = Some (store_contents known_world) /\
  w_log (add_to_db [doc "x" "a.pdf" 0] known_world).2
  = (w_log known_world ++ [EConnect; EFetch (elements (dom (store_contents known_world)));
                           EPrint MsgAllInDb])%list.
Proof.
  assert (H : Forall (fun c => exists id, chunk_id c = Some id /\
                                 id ∈ dom (store_contents known_world))
                     (calculate_chunk_ids [doc "x" "a.pdf" 0])).
  { constructor; [|constructor]. exists "a.pdf:0:0". split.
    - vm_compute. reflexivity.
    - refine (bool_decide_unpack _ _). vm_compute. reflexivity. }
  split; [exact H|]. exact (add_to_db_known_chunks _ _ H).
Defined.

Lemma main_no_input_returns_witness :
  (w_dirs sample_world !! "other" = None /\ MsgDirNotFound "other" = MsgDirNotFound "other" \/
   exists entries, w_dirs sample_world !! "other" = Some entries /\ pdf_files entries = [] /\
                   MsgDirNotFound "other" = MsgNoPdfs "other") /\
  main true "other" sample_world
  = (Returned, emit (EPrint (MsgDirNotFound "other"))
                 (if true then clear_database (emit (EPrint MsgClearing) sample_world)
                  else sample_world)) /\
  (exists evs, w_log (main true "other" sample_world).2 = (w_log sample_world ++ evs)%list /\
     EConnect ∉ evs) /\
  (true = false -> w_store (main true "other" sample_world).2 = w_store sample_world).
Proof.
  assert (H : w_dirs sample_world !! "other" = None /\ MsgDirNotFound "other" = MsgDirNotFound "other" \/
    exists entries, w_dirs sample_world !! "other" = Some entries /\ pdf_files entries = [] /\
                    MsgDirNotFound "other" = MsgNoPdfs "other").
  { left. split; [vm_compute|]; reflexivity. }
  split; [exact H|]. exact (main_no_input_returns true "other" sample_world _ H).
Defined.


Lemma main_reset_no_input_store_gone_witness :
  (w_dirs text_only_world !! "notes" = None \/
   exists entries, w_dirs text_only_world !! "notes" = Some entries /\ pdf_files entries = []) /\
  (main true "notes" text_only_world).1 = Returned /\
  w_store (main true "notes" text_only_world).2 = None.
Proof.
  assert (H : w_dirs text_only_world !! "notes" = None \/
    exists entries, w_dirs text_only_world !! "notes" = Some entries /\ pdf_files entries = []).
  { right. exists ["readme.txt"]. split; vm_compute; reflexivity. }
  split; [exact H|]. exact (main_reset_no_input_store_gone _ _ H).
Defined.

(** * Further properties of the code *)

(** ** Lemmas on [add_to_db] *)

Lemma loop_chunk_ids_some last n chunks :
  Forall (fun c => is_Some (chunk_id c)) (calculate_chunk_ids_loop last n chunks).
Proof.
  revert last n; induction chunks as [|c r IH]; intros last n; simpl; constructor; auto.
  rewrite chunk_id_set_id. eauto.
Qed.

Lemma zip_ids_snd (l : list Document) :
  Forall (fun c => is_Some (chunk_id c)) l ->
  map snd (zip l (flat_map (fun c => option_list (chunk_id c)) l))
  = flat_map (fun c => option_list (chunk_id c)) l.
Proof.
  induction l as [|c r IH]; intros Hall; [done|].
  apply Forall_cons in Hall as [[id Hid] Hr]. simpl. rewrite Hid. simpl. now rewrite IH.
Qed.

Lemma zip_ids_elem (l : list Document) p :
  Forall (fun c => is_Some (chunk_id c)) l ->
  p ∈ zip l (flat_map (fun c => option_list (chunk_id c)) l) ->
  chunk_id p.1 = Some p.2 /\ p.1 ∈ l.
Proof.
  induction l as [|c r IH]; intros Hall Hp; [set_solver|].
  apply Forall_cons in Hall as [[id Hid] Hr]. simpl in Hp. rewrite Hid in Hp. simpl in Hp.
  apply elem_of_cons in Hp as [-> | Hp]; simpl.
  - split; [done | set_solver].
  - destruct (IH Hr Hp) as [H1 H2]. split; [done | set_solver].
Qed.

Lemma computed_ids_zip chunks :
  map snd (zip (calculate_chunk_ids chunks) (computed_ids chunks)) = computed_ids chunks.
Proof. apply zip_ids_snd, loop_chunk_ids_some. Qed.

Lemma insert_documents_pairs_lookup (ps : list (Document * string)) s k :
  k ∉ map snd ps -> insert_documents (map fst ps) (map snd ps) s !! k = s !! k.
Proof.
  revert s; induction ps as [|[d id] r IH]; intros s Hk; [done|]. simpl in *.
  rewrite IH by set_solver. rewrite lookup_insert_ne; [done|]. set_solver.
Qed.

Lemma insert_documents_pairs_dom (ps : list (Document * string)) s :
  dom (insert_documents (map fst ps) (map snd ps) s) = dom s ∪ list_to_set (map snd ps).
Proof.
  revert s; induction ps as [|[d id] r IH]; intros s; simpl.
  - set_solver.
  - rewrite IH, dom_insert_L. set_solver.
Qed.

Lemma insert_documents_pairs_origin (ps : list (Document * string)) s k d :
  insert_documents (map fst ps) (map snd ps) s !! k = Some d ->
  s !! k = Some d \/ (d, k) ∈ ps.
Proof.
  revert s; induction ps as [|[d' id] r IH]; intros s H; simpl in H; [auto|].
  destruct (IH _ H) as [Hs | Hin]; [|right; set_solver].
  destruct (decide (id = k)) as [-> | Hne].
  - rewrite lookup_insert_eq in Hs. injection Hs as ->. right. set_solver.
  - rewrite lookup_insert_ne in Hs by done. now left.
Qed.

Lemma metadata_ids_calc chunks :
  metadata_ids (calculate_chunk_ids chunks) = Some (computed_ids chunks).
Proof. apply metadata_ids_loop. Qed.

Lemma map_snd_filter_new {A} (X : gset string) (l : list (A * string)) :
  map snd (filter (fun p : A * string => p.2 ∉ X) l) = filter (fun id => id ∉ X) (map snd l).
Proof.
  induction l as [|[a x] r IH]; [done|].
  rewrite filter_cons. simpl. rewrite filter_cons. case_decide; simpl; now rewrite IH.
Qed.

Lemma filter_new_nil {A} (X : gset string) (l : list (A * string)) :
  filter (fun p : A * string => p.2 ∉ X) l = [] <-> Forall (fun id => id ∈ X) (map snd l).
Proof.
  induction l as [|[a x] r IH]; [simpl; split; [constructor | done]|].
  rewrite filter_cons. simpl. rewrite Forall_cons. case_decide as Hx.
  - split; [discriminate | intros [Hin _]; contradiction].
  - rewrite IH. split; [|intros [_ H]; exact H].
    intros H. split; [|exact H]. destruct (decide (x ∈ X)); [done | contradiction].
Qed.

Lemma union_filter_new {A} (X : gset string) (l : list (A * string)) :
  X ∪ list_to_set (map snd (filter (fun p : A * string => p.2 ∉ X) l))
  = X ∪ list_to_set (map snd l).
Proof.
  induction l as [|[a x] r IH]; [done|].
  rewrite filter_cons. case_decide; simpl; set_solver.
Qed.

(** The effect of [add_to_db]: it returns normally exactly when no chunk
    has a new id; the new chunks are stored under their ids unless these
    repeat; it only appends to the log, and no ingestion message. *)
Lemma add_to_db_effect chunks w :
  let ps := filter (fun p : Document * string => p.2 ∉ dom (store_contents w))
                   (zip (calculate_chunk_ids chunks) (computed_ids chunks)) in
  ((add_to_db chunks w).1 = Returned <-> ps = []) /\
  w_store (add_to_db chunks w).2
    = Some (if bool_decide (NoDup (map snd ps))
            then insert_documents (map fst ps) (map snd ps) (store_contents w)
            else store_contents w) /\
  w_dirs (add_to_db chunks w).2 = w_dirs w /\
  w_chunks (add_to_db chunks w).2 = w_chunks w /\
  exists evs, w_log (add_to_db chunks w).2 = (w_log w ++ evs)%list /\
    ingested_names evs = [].
Proof.
  intros ps. subst ps. unfold add_to_db. cbv zeta. rewrite metadata_ids_calc.
  destruct (filter _ _) as [|p ps] eqn:Hps; simpl.
  - try rewrite bool_decide_true by constructor.
    repeat split; auto. eexists; split; [rewrite <- ?app_assoc; reflexivity|]. done.
  - unfold add_documents.
    destruct (decide (NoDup (p.2 :: map snd ps))) as [Hnd | Hnd];
      [rewrite !bool_decide_true by exact Hnd | rewrite !bool_decide_false by exact Hnd];
      simpl.
    + repeat split; try discriminate.
      eexists; split; [rewrite <- ?app_assoc; reflexivity|]. done.
    + repeat split; try discriminate.
      eexists; split; [rewrite <- ?app_assoc; reflexivity|]. done.
Qed.

Lemma add_to_db_returned_iff chunks w :
  (add_to_db chunks w).1 = Returned <->
  Forall (fun id => id ∈ dom (store_contents w)) (computed_ids chunks).
Proof.
  destruct (add_to_db_effect chunks w) as [Hr _]. rewrite Hr, filter_new_nil.
  now rewrite computed_ids_zip.
Qed.

Lemma add_to_db_returned_store chunks w :
  (add_to_db chunks w).1 = Returned ->
  store_contents (add_to_db chunks w).2 = store_contents w.
Proof.
  destruct (add_to_db_effect chunks w) as [Hr [Hs _]]. intros H.
  apply Hr in H. rewrite H in Hs. unfold store_contents at 1. rewrite Hs.
  cbn [default]. rewrite bool_decide_true; [reflexivity | constructor].
Qed.

Lemma add_to_db_dom chunks w :
  NoDup (computed_ids chunks) ->
  dom (store_contents (add_to_db chunks w).2)
  = dom (store_contents w) ∪ list_to_set (computed_ids chunks).
Proof.
  intros Hnd. destruct (add_to_db_effect chunks w) as (_ & Hs & _).
  unfold store_contents at 1. rewrite Hs. simpl.
  rewrite bool_decide_true.
  - rewrite insert_documents_pairs_dom, union_filter_new. now rewrite computed_ids_zip.
  - rewrite map_snd_filter_new, computed_ids_zip. now apply NoDup_filter.
Qed.

Lemma add_to_db_keeps chunks w k d :
  store_contents w !! k = Some d ->
  store_contents (add_to_db chunks w).2 !! k = Some d.
Proof.
  intros Hk. destruct (add_to_db_effect chunks w) as (_ & Hs & _).
  unfold store_contents at 1. rewrite Hs. simpl.
  case_bool_decide; [|exact Hk].
  rewrite insert_documents_pairs_lookup; [done|].
  intros Hin. apply list_elem_of_fmap in Hin as ([c id] & -> & Hin).
  apply list_elem_of_filter in Hin as [Hnot _]. simpl in Hnot.
  apply Hnot, elem_of_dom. eauto.
Qed.

Lemma add_to_db_origin chunks w k d :
  store_contents (add_to_db chunks w).2 !! k = Some d ->
  store_contents w !! k = Some d \/
  ((k ∉ dom (store_contents w)) /\ chunk_id d = Some k /\ d ∈ calculate_chunk_ids chunks).
Proof.
  destruct (add_to_db_effect chunks w) as (_ & Hs & _).
  unfold store_contents at 1. rewrite Hs. simpl. intros H.
  case_bool_decide; [|now left].
  destruct (insert_documents_pairs_origin _ _ _ _ H) as [Hk | Hin]; [now left|right].
  apply list_elem_of_filter in Hin as [Hnot Hin]. simpl in Hnot.
  unfold computed_ids in Hin.
  destruct (zip_ids_elem _ (d, k) (loop_chunk_ids_some None 0 chunks) Hin) as [Hid Hd].
  auto.
Qed.

Lemma store_contents_emit e w : store_contents (emit e w) = store_contents w.
Proof. reflexivity. Qed.

Lemma ingested_names_app l1 l2 :
  ingested_names (l1 ++ l2)%list = (ingested_names l1 ++ ingested_names l2)%list.
Proof.
  induction l1 as [|e l1 IH]; [done|].
  destruct e as [m| | | |]; simpl; rewrite ?IH; try reflexivity.
  destruct m; simpl; rewrite ?IH; reflexivity.
Qed.

(** ** Lemmas on the ingestion loop *)

Lemma ingest_files_keeps dir files w k d :
  store_contents w !! k = Some d ->
  store_contents (ingest_files dir files w).2 !! k = Some d.
Proof.
  revert w; induction files as [|f r IH]; intros w Hk; simpl; [done|].
  destruct (w_chunks w dir f) as [cs|]; [|done].
  pose proof (add_to_db_keeps cs (emit (EPrint (MsgIngesting f)) w) k d) as Hkeep.
  rewrite store_contents_emit in Hkeep. specialize (Hkeep Hk).
  destruct (add_to_db cs _) as [[|] w1]; simpl in *; auto.
Qed.

Lemma ingest_files_returned_store dir files w :
  (ingest_files dir files w).1 = Returned ->
  store_contents (ingest_files dir files w).2 = store_contents w.
Proof.
  revert w; induction files as [|f r IH]; intros w H; simpl in *; [done|].
  destruct (w_chunks w dir f) as [cs|]; [|discriminate].
  pose proof (add_to_db_returned_store cs (emit (EPrint (MsgIngesting f)) w)) as Hs.
  destruct (add_to_db cs _) as [[|] w1]; simpl in *; [|discriminate].
  rewrite (IH w1 H), (Hs eq_refl). apply store_contents_emit.
Qed.

(** When every file loads and brings no new id, the loop returns
    normally, starts every file in order and leaves the store as it is. *)
Lemma ingest_files_all_known dir files w :
  all_known w dir (dom (store_contents w)) files ->
  (ingest_files dir files w).1 = Returned /\
  store_contents (ingest_files dir files w).2 = store_contents w /\
  exists evs, w_log (ingest_files dir files w).2 = (w_log w ++ evs)%list /\
    ingested_names evs = files.
Proof.
  revert w; induction files as [|f r IH]; intros w Hall; simpl.
  - split; [done|]. split; [done|]. exists []. now rewrite app_nil_r.
  - destruct (Hall f ltac:(set_solver)) as (cs & Hcs & Hknown). rewrite Hcs.
    pose proof (proj2 (add_to_db_returned_iff cs (emit (EPrint (MsgIngesting f)) w)) Hknown)
      as Hret.
    pose proof (add_to_db_returned_store cs (emit (EPrint (MsgIngesting f)) w) Hret) as Hst.
    destruct (add_to_db_effect cs (emit (EPrint (MsgIngesting f)) w))
      as (_ & _ & Hd & Hc & evs1 & Hl1 & Hn1).
    destruct (add_to_db cs _) as [o w1]; simpl in *. subst o.
    destruct (IH w1) as (Ho2 & Hs2 & evs2 & Hl2 & Hn2).
    { intros g Hg. rewrite Hc, Hst. apply Hall. set_solver. }
    split; [done|]. split; [now rewrite Hs2, Hst|].
    exists (EPrint (MsgIngesting f) :: evs1 ++ evs2)%list.
    rewrite Hl2, Hl1, <- !app_assoc. split; [reflexivity|].
    simpl. rewrite ingested_names_app, Hn1, Hn2. reflexivity.
Qed.

(** The loop raises at the first file that fails to load or brings a new
    id, and starts no file after it. *)
Lemma ingest_files_stop dir pre f post w :
  all_known w dir (dom (store_contents w)) pre ->
  (w_chunks w dir f = None \/
   exists cs, w_chunks w dir f = Some cs /\
     Exists (fun id => id ∉ dom (store_contents w)) (computed_ids cs)) ->
  (ingest_files dir (pre ++ f :: post) w).1 = Raised /\
  exists evs, w_log (ingest_files dir (pre ++ f :: post) w).2 = (w_log w ++ evs)%list /\
    ingested_names evs = (pre ++ [f])%list.
Proof.
  revert w; induction pre as [|g r IH]; intros w Hall Hf; simpl.
  - destruct Hf as [Hf | (cs & Hcs & Hnew)].
    + rewrite Hf. simpl. split; [done|]. exists [EPrint (MsgIngesting f)]. done.
    + rewrite Hcs.
      assert (Hr : (add_to_db cs (emit (EPrint (MsgIngesting f)) w)).1 <> Returned).
      { rewrite add_to_db_returned_iff, store_contents_emit. intros Hk.
        apply Exists_exists in Hnew as (id & Hin & Hnot).
        rewrite Forall_forall in Hk. exact (Hnot (Hk id Hin)). }
      destruct (add_to_db_effect cs (emit (EPrint (MsgIngesting f)) w))
        as (_ & _ & _ & _ & evs1 & Hl1 & Hn1).
      destruct (add_to_db cs _) as [[|] w1]; simpl in *; [congruence|].
      split; [done|]. exists (EPrint (MsgIngesting f) :: evs1).
      rewrite Hl1, <- app_assoc. split; [reflexivity|]. simpl. now rewrite Hn1.
  - destruct (Hall g ltac:(set_solver)) as (cs & Hcs & Hknown). rewrite Hcs.
    pose proof (proj2 (add_to_db_returned_iff cs (emit (EPrint (MsgIngesting g)) w)) Hknown)
      as Hret.
    pose proof (add_to_db_returned_store cs (emit (EPrint (MsgIngesting g)) w) Hret) as Hst.
    destruct (add_to_db_effect cs (emit (EPrint (MsgIngesting g)) w))
      as (_ & _ & Hd & Hc & evs1 & Hl1 & Hn1).
    destruct (add_to_db cs _) as [o w1]; simpl in *. subst o.
    destruct (IH w1) as (Ho2 & evs2 & Hl2 & Hn2).
    { intros g' Hg'. rewrite Hc, Hst. apply Hall. set_solver. }
    { rewrite Hc, Hst. exact Hf. }
    split; [done|].
    exists (EPrint (MsgIngesting g) :: evs1 ++ evs2)%list.
    rewrite Hl2, Hl1, <- !app_assoc. split; [reflexivity|].
    simpl. rewrite ingested_names_app, Hn1, Hn2. reflexivity.
Qed.

(** ** Lemmas on [pdf_files] *)






(** ** Lemmas on [main] *)

Lemma print_names_frame files w :
  let w' := fold_left (fun w p => emit (EPrint (MsgFileName p)) w) files w in
  w_dirs w' = w_dirs w /\ w_chunks w' = w_chunks w /\ w_store w' = w_store w /\
  exists pre, w_log w' = (w_log w ++ pre)%list /\ ingested_names pre = [].
Proof.
  revert w; induction files as [|p r IH]; intros w; simpl.
  - repeat split; auto. exists []. now rewrite app_nil_r.
  - destruct (IH (emit (EPrint (MsgFileName p)) w)) as (Hd & Hc & Hs & pre & Hl & Hn).
    repeat split; auto.
    exists (EPrint (MsgFileName p) :: pre). rewrite Hl, emit_log, <- app_assoc. auto.
Qed.

Lemma main_reset_frame (reset : bool) (w : world) :
  let w0 := if reset then clear_database (emit (EPrint MsgClearing) w) else w in
  w_dirs w0 = w_dirs w /\ w_chunks w0 = w_chunks w /\
  store_contents w0 = (if reset then ∅ else store_contents w) /\
  exists pre, w_log w0 = (w_log w ++ pre)%list /\ ingested_names pre = [].
Proof.
  destruct reset; simpl.
  - unfold clear_database. rewrite emit_store.
    destruct (w_store w) eqn:E; simpl; repeat split; auto;
      try (unfold store_contents; rewrite ?emit_store, ?E; reflexivity);
      eexists; (split; [rewrite <- ?app_assoc; reflexivity | reflexivity]).
  - repeat split; auto. exists []. now rewrite app_nil_r.
Qed.

(** When [dir] holds PDFs, [main] runs the ingestion loop over the sorted
    PDF names from a world that differs only by the reset, and by
    messages that start no ingestion. *)
Lemma main_ingest (reset : bool) (dir : string) (w : world) entries :
  w_dirs w !! dir = Some entries -> pdf_files entries <> [] ->
  exists w2, main reset dir w = ingest_files dir (pdf_files entries) w2 /\
    w_dirs w2 = w_dirs w /\ w_chunks w2 = w_chunks w /\
    store_contents w2 = (if reset then ∅ else store_contents w) /\
    exists pre, w_log w2 = (w_log w ++ pre)%list /\ ingested_names pre = [].
Proof.
  intros Hd Hne. unfold main. cbv beta zeta.
  destruct (main_reset_frame reset w) as (Hd0 & Hc0 & Hs0 & pre0 & Hl0 & Hn0).
  revert Hd0 Hc0 Hs0 Hl0.
  generalize (if reset then clear_database (emit (EPrint MsgClearing) w) else w).
  intros w0 Hd0 Hc0 Hs0 Hl0. rewrite Hd0, Hd.
  destruct (pdf_files entries) as [|f fs] eqn:Hp; [done|].
  set (w1 := emit (EPrint (MsgFound (length (f :: fs)) dir)) w0).
  destruct (print_names_frame (f :: fs) w1) as (Hd2 & Hc2 & Hs2 & pre2 & Hl2 & Hn2).
  eexists; split; [reflexivity|].
  rewrite Hd2, Hc2. split; [exact Hd0|]. split; [exact Hc0|]. split.
  { unfold store_contents in *. rewrite Hs2. exact Hs0. }
  exists (pre0 ++ EPrint (MsgFound (length (f :: fs)) dir) :: pre2)%list.
  rewrite Hl2. unfold w1. rewrite emit_log, Hl0, <- !app_assoc. split; [reflexivity|].
  rewrite ingested_names_app, Hn0. simpl. exact Hn2.
Qed.

(** ** Extra properties *)

(** [add_to_db] returns normally exactly when every id computed for the
    chunks is already in the store: with a new chunk it raises, at the
    [db.persist()] call or on repeated ids. *)
Theorem add_to_db_returns_iff_nothing_new (chunks : list Document) (w : world) :
  (add_to_db chunks w).1 = Returned <->
  Forall (fun id => id ∈ dom (store_contents w)) (computed_ids chunks).
Proof. apply add_to_db_returned_iff. Qed.

(** When the computed ids are distinct, the store after [add_to_db] holds
    exactly the old ids plus these ids, even though the call then raises
    at [db.persist()]. *)
Theorem add_to_db_store_ids (chunks : list Document) (w : world) :
  NoDup (computed_ids chunks) ->
  dom (store_contents (add_to_db chunks w).2)
  = dom (store_contents w) ∪ list_to_set (computed_ids chunks).
Proof. apply add_to_db_dom. Qed.

(** When the ids of the new chunks repeat, the insert is refused:
    [add_to_db] raises after announcing the chunks, and the store is left
    as it was. *)
Theorem add_to_db_repeated_new_ids (chunks : list Document) (w : world) :
  ~ NoDup (filter (fun id => id ∉ dom (store_contents w)) (computed_ids chunks)) ->
  (add_to_db chunks w).1 = Raised /\
  w_store (add_to_db chunks w).2 = Some (store_contents w) /\
  w_log (add_to_db chunks w).2
  = (w_log w ++ [EConnect; EFetch (elements (dom (store_contents w)));
                 EPrint (MsgAdding (length (filter (fun id => id ∉ dom (store_contents w))
                                                   (computed_ids chunks))))])%list.
Proof.
  intros Hnd.
  rewrite <- computed_ids_zip, <- map_snd_filter_new in Hnd |- *.
  unfold add_to_db. cbv zeta. rewrite metadata_ids_calc.
  destruct (filter _ _) as [|p ps]; [destruct Hnd; constructor|].
  simpl. unfold add_documents. rewrite bool_decide_false by exact Hnd.
  simpl. rewrite !length_map, <- !app_assoc. auto.
Qed.

(** [add_to_db] never removes or replaces an entry already in the store. *)
Theorem add_to_db_keeps_entries (chunks : list Document) (w : world) k d :
  store_contents w !! k = Some d ->
  store_contents (add_to_db chunks w).2 !! k = Some d.
Proof. apply add_to_db_keeps. Qed.

(** Every entry of the store after [add_to_db] was there before, or is
    under a previously absent id one of the chunks with that id. *)
Theorem add_to_db_new_entry_origin (chunks : list Document) (w : world) k d :
  store_contents (add_to_db chunks w).2 !! k = Some d ->
  store_contents w !! k = Some d \/
  ((k ∉ dom (store_contents w)) /\ chunk_id d = Some k /\ d ∈ calculate_chunk_ids chunks).
Proof. apply add_to_db_origin. Qed.

(** After a call of [add_to_db] with distinct computed ids (which stores
    the chunks and raises at [db.persist()]), a second call with the same
    chunks inserts nothing: it connects, fetches, reports that everything
    is in the DB, returns normally and leaves the store as it is. *)
Theorem add_to_db_rerun_inserts_nothing (chunks : list Document) (w : world) :
  NoDup (computed_ids chunks) ->
  let w1 := (add_to_db chunks w).2 in
  (add_to_db chunks w1).1 = Returned /\
  w_store (add_to_db chunks w1).2 = w_store w1 /\
  w_log (add_to_db chunks w1).2
  = (w_log w1 ++ [EConnect; EFetch (elements (dom (store_contents w1)));
                  EPrint MsgAllInDb])%list.
Proof.
  intros Hnd w1.
  assert (Hs1 : w_store w1 = Some (store_contents w1)).
  { unfold w1, store_contents. rewrite (proj1 (proj2 (add_to_db_effect chunks w))).
    reflexivity. }
  assert (Hall : Forall (fun c => exists id, chunk_id c = Some id /\ id ∈ dom (store_contents w1))
                        (calculate_chunk_ids chunks)).
  { unfold w1. rewrite (add_to_db_dom _ _ Hnd). apply Forall_forall. intros c Hc.
    pose proof (loop_chunk_ids_some None 0 chunks) as Hsome.
    rewrite Forall_forall in Hsome. destruct (Hsome c Hc) as [id Hid].
    exists id. split; [done|]. apply elem_of_union_r, elem_of_list_to_set.
    unfold computed_ids. apply list_elem_of_In, in_flat_map.
    exists c. split; [now apply list_elem_of_In|]. rewrite Hid. now left. }
  clearbody w1. unfold add_to_db. rewrite metadata_ids_calc. unfold computed_ids.
  rewrite (filter_known_ids _ _ Hall). simpl.
  rewrite <- !app_assoc. auto.
Qed.


(** Whenever [main] returns normally, the store holds what it held at the
    start (nothing after [--reset]): no run that adds a chunk returns
    normally. *)
Theorem main_returns_store_unchanged (reset : bool) (dir : string) (w : world) :
  (main reset dir w).1 = Returned ->
  store_contents (main reset dir w).2 = (if reset then ∅ else store_contents w).
Proof.
  destruct (main_reset_frame reset w) as (_ & _ & Hs0 & _).
  destruct (main_no_input_eq reset dir w) as [H1 H2].
  destruct (w_dirs w !! dir) as [entries|] eqn:Hd.
  - destruct (decide (pdf_files entries = [])) as [Hp | Hne].
    + rewrite (H2 _ eq_refl Hp). intros _. exact Hs0.
    + destruct (main_ingest reset dir w entries Hd Hne) as (w2 & -> & _ & _ & Hs2 & _).
      intros Hr. rewrite (ingest_files_returned_store _ _ _ Hr). exact Hs2.
  - rewrite (H1 eq_refl). intros _. exact Hs0.
Qed.

(** When the directory holds PDFs that all load and bring no new id,
    [main] returns normally, starts every PDF in sorted order and leaves
    the store as it was (empty after [--reset]). *)
Theorem main_all_known (reset : bool) (dir : string) (w : world) entries :
  w_dirs w !! dir = Some entries -> pdf_files entries <> [] ->
  all_known w dir (dom (if reset then ∅ else store_contents w)) (pdf_files entries) ->
  (main reset dir w).1 = Returned /\
  store_contents (main reset dir w).2 = (if reset then ∅ else store_contents w) /\
  exists evs, w_log (main reset dir w).2 = (w_log w ++ evs)%list /\
    ingested_names evs = pdf_files entries.
Proof.
  intros Hd Hne Hall.
  destruct (main_ingest reset dir w entries Hd Hne)
    as (w2 & -> & Hd2 & Hc2 & Hs2 & pre & Hl2 & Hn2).
  destruct (ingest_files_all_known dir (pdf_files entries) w2) as (Ho & Hs & evs & Hl & Hn).
  { intros f Hf. rewrite Hc2, Hs2. auto. }
  split; [done|]. split; [now rewrite Hs, Hs2|].
  exists (pre ++ evs)%list. rewrite Hl, Hl2, <- app_assoc. split; [done|].
  now rewrite ingested_names_app, Hn2, Hn.
Qed.

(** [main] raises at the first PDF, in sorted order, that fails to load
    or brings a new id; the PDFs sorted after it are never started. *)
Theorem main_stops_at_first_failure (reset : bool) (dir : string) (w : world)
    entries pre f post :
  w_dirs w !! dir = Some entries -> pdf_files entries = (pre ++ f :: post)%list ->
  all_known w dir (dom (if reset then ∅ else store_contents w)) pre ->
  (w_chunks w dir f = None \/
   exists cs, w_chunks w dir f = Some cs /\
     Exists (fun id => id ∉ dom (if reset then ∅ else store_contents w)) (computed_ids cs)) ->
  (main reset dir w).1 = Raised /\
  exists evs, w_log (main reset dir w).2 = (w_log w ++ evs)%list /\
    ingested_names evs = (pre ++ [f])%list.
Proof.
  intros Hd Hp Hpre Hf.
  assert (Hne : pdf_files entries <> []) by (rewrite Hp; destruct pre; discriminate).
  destruct (main_ingest reset dir w entries Hd Hne)
    as (w2 & -> & Hd2 & Hc2 & Hs2 & pre0 & Hl2 & Hn2).
  rewrite Hp.
  destruct (ingest_files_stop dir pre f post w2) as (Ho & evs & Hl & Hn).
  { intros g Hg. rewrite Hc2, Hs2. auto. }
  { rewrite Hc2, Hs2. exact Hf. }
  split; [done|].
  exists (pre0 ++ evs)%list. rewrite Hl, Hl2, <- app_assoc. split; [done|].
  now rewrite ingested_names_app, Hn2, Hn.
Qed.

(** Without [--reset], [main] never removes or replaces an entry of the
    store, whether it returns or raises. *)
Theorem main_no_reset_keeps_entries (dir : string) (w : world) k d :
  store_contents w !! k = Some d ->
  store_contents (main false dir w).2 !! k = Some d.
Proof.
  intros Hk.
  destruct (w_dirs w !! dir) as [entries|] eqn:Hd.
  - destruct (decide (pdf_files entries = [])) as [Hp | Hne].
    + unfold main. simpl. rewrite Hd, Hp. exact Hk.
    + destruct (main_ingest false dir w entries Hd Hne) as (w2 & -> & _ & _ & Hs2 & _).
      apply ingest_files_keeps. now rewrite Hs2.
  - unfold main. simpl. rewrite Hd. exact Hk.
Qed.

(** ** Witnesses of the extra properties *)

Lemma add_to_db_store_ids_witness :
  NoDup (computed_ids [doc "y" "a.pdf" 0; doc "z" "a.pdf" 0]) /\
  dom (store_contents (add_to_db [doc "y" "a.pdf" 0; doc "z" "a.pdf" 0] known_world).2)
  = dom (store_contents known_world)
    ∪ list_to_set (computed_ids [doc "y" "a.pdf" 0; doc "z" "a.pdf" 0]).
Proof.
  assert (H : NoDup (computed_ids [doc "y" "a.pdf" 0; doc "z" "a.pdf" 0])).
  { refine (bool_decide_unpack _ _). vm_compute. reflexivity. }
  split; [exact H|]. exact (add_to_db_store_ids _ _ H).
Defined.

Lemma add_to_db_repeated_new_ids_witness :
  ~ NoDup (filter (fun id => id ∉ dom (store_contents known_world))
                  (computed_ids [doc "x" "c.pdf" 0; doc "y" "c.pdf" 1; doc "z" "c.pdf" 0])) /\
  ((add_to_db [doc "x" "c.pdf" 0; doc "y" "c.pdf" 1; doc "z" "c.pdf" 0] known_world).1
     = Raised /\
   w_store (add_to_db [doc "x" "c.pdf" 0; doc "y" "c.pdf" 1; doc "z" "c.pdf" 0]
              known_world).2 = Some (store_contents known_world) /\
   w_log (add_to_db [doc "x" "c.pdf" 0; doc "y" "c.pdf" 1; doc "z" "c.pdf" 0] known_world).2
   = (w_log known_world ++ [EConnect; EFetch (elements (dom (store_contents known_world)));
        EPrint (MsgAdding (length (filter (fun id => id ∉ dom (store_contents known_world))
                 (computed_ids [doc "x" "c.pdf" 0; doc "y" "c.pdf" 1; doc "z" "c.pdf" 0]))))])%list).
Proof.
  assert (H : ~ NoDup (filter (fun id => id ∉ dom (store_contents known_world))
                 (computed_ids [doc "x" "c.pdf" 0; doc "y" "c.pdf" 1; doc "z" "c.pdf" 0]))).
  { refine (bool_decide_unpack _ _). vm_compute. reflexivity. }
  split; [exact H|]. exact (add_to_db_repeated_new_ids _ _ H).
Defined.

Lemma add_to_db_keeps_entries_witness :
  store_contents known_world !! "a.pdf:0:0" = Some (doc "x" "a.pdf" 0) /\
  store_contents (add_to_db [doc "y" "a.pdf" 0; doc "z" "a.pdf" 0] known_world).2
    !! "a.pdf:0:0" = Some (doc "x" "a.pdf" 0).
Proof.
  assert (H : store_contents known_world !! "a.pdf:0:0" = Some (doc "x" "a.pdf" 0)).
  { vm_compute. reflexivity. }
  split; [exact H|]. exact (add_to_db_keeps_entries _ _ _ _ H).
Defined.

Lemma add_to_db_new_entry_origin_witness :
  store_contents (add_to_db [doc "y" "a.pdf" 0; doc "z" "a.pdf" 0] known_world).2
    !! "a.pdf:0:1" = Some (set_id (doc "z" "a.pdf" 0) "a.pdf:0:1") /\
  (store_contents known_world !! "a.pdf:0:1" = Some (set_id (doc "z" "a.pdf" 0) "a.pdf:0:1") \/
   (("a.pdf:0:1" ∉ dom (store_contents known_world)) /\
    chunk_id (set_id (doc "z" "a.pdf" 0) "a.pdf:0:1") = Some "a.pdf:0:1" /\
    set_id (doc "z" "a.pdf" 0) "a.pdf:0:1"
      ∈ calculate_chunk_ids [doc "y" "a.pdf" 0; doc "z" "a.pdf" 0])).
Proof.
  assert (H : store_contents (add_to_db [doc "y" "a.pdf" 0; doc "z" "a.pdf" 0] known_world).2
                !! "a.pdf:0:1" = Some (set_id (doc "z" "a.pdf" 0) "a.pdf:0:1")).
  { vm_compute. reflexivity. }
  split; [exact H|]. exact (add_to_db_new_entry_origin _ _ _ _ H).
Defined.

Lemma add_to_db_rerun_inserts_nothing_witness :
  NoDup (computed_ids [doc "y" "a.pdf" 0; doc "z" "a.pdf" 0]) /\
  (let w1 := (add_to_db [doc "y" "a.pdf" 0; doc "z" "a.pdf" 0] known_world).2 in
   (add_to_db [doc "y" "a.pdf" 0; doc "z" "a.pdf" 0] w1).1 = Returned /\
   w_store (add_to_db [doc "y" "a.pdf" 0; doc "z" "a.pdf" 0] w1).2 = w_store w1 /\
   w_log (add_to_db [doc "y" "a.pdf" 0; doc "z" "a.pdf" 0] w1).2
   = (w_log w1 ++ [EConnect; EFetch (elements (dom (store_contents w1)));
                   EPrint MsgAllInDb])%list).
Proof.
  assert (H : NoDup (computed_ids [doc "y" "a.pdf" 0; doc "z" "a.pdf" 0])).
  { refine (bool_decide_unpack _ _). vm_compute. reflexivity. }
  split; [exact H|]. exact (add_to_db_rerun_inserts_nothing _ _ H).
Defined.

Lemma main_returns_store_unchanged_witness :
  (main false "sample" loaded_world).1 = Returned /\
  store_contents (main false "sample" loaded_world).2
  = (if false then ∅ else store_contents loaded_world).
Proof.
  assert (H : (main false "sample" loaded_world).1 = Returned) by (vm_compute; reflexivity).
  split; [exact H|]. exact (main_returns_store_unchanged false "sample" loaded_world H).
Defined.

Lemma main_all_known_witness :
  w_dirs loaded_world !! "sample" = Some ["b.pdf"; "a.pdf"; "notes.txt"] /\
  pdf_files ["b.pdf"; "a.pdf"; "notes.txt"] <> [] /\
  all_known loaded_world "sample" (dom (if false then ∅ else store_contents loaded_world))
    (pdf_files ["b.pdf"; "a.pdf"; "notes.txt"]) /\
  ((main false "sample" loaded_world).1 = Returned /\
   store_contents (main false "sample" loaded_world).2
     = (if false then ∅ else store_contents loaded_world) /\
   exists evs, w_log (main false "sample" loaded_world).2 = (w_log loaded_world ++ evs)%list /\
     ingested_names evs = pdf_files ["b.pdf"; "a.pdf"; "notes.txt"]).
Proof.
  assert (H1 : w_dirs loaded_world !! "sample" = Some ["b.pdf"; "a.pdf"; "notes.txt"])
    by (vm_compute; reflexivity).
  assert (H2 : pdf_files ["b.pdf"; "a.pdf"; "notes.txt"] <> []) by (vm_compute; discriminate).
  assert (H3 : all_known loaded_world "sample"
                 (dom (if false then ∅ else store_contents loaded_world))
                 (pdf_files ["b.pdf"; "a.pdf"; "notes.txt"])).
  { intros f Hf. vm_compute in Hf.
    apply elem_of_cons in Hf as [-> | Hf]; [|apply list_elem_of_singleton in Hf as ->];
      (eexists; split; [reflexivity|]);
      refine (bool_decide_unpack _ _); vm_compute; reflexivity. }
  split; [exact H1|]. split; [exact H2|]. split; [exact H3|].
  exact (main_all_known false "sample" loaded_world _ H1 H2 H3).
Defined.

Lemma main_stops_at_first_failure_witness :
  w_dirs failing_world !! "sample" = Some ["c.pdf"; "b.pdf"; "a.pdf"] /\
  pdf_files ["c.pdf"; "b.pdf"; "a.pdf"] = (["a.pdf"] ++ "b.pdf" :: ["c.pdf"])%list /\
  all_known failing_world "sample" (dom (if false then ∅ else store_contents failing_world))
    ["a.pdf"] /\
  (w_chunks failing_world "sample" "b.pdf" = None \/
   exists cs, w_chunks failing_world "sample" "b.pdf" = Some cs /\
     Exists (fun id => id ∉ dom (if false then ∅ else store_contents failing_world))
            (computed_ids cs)) /\
  ((main false "sample" failing_world).1 = Raised /\
   exists evs, w_log (main false "sample" failing_world).2 = (w_log failing_world ++ evs)%list /\
     ingested_names evs = (["a.pdf"] ++ ["b.pdf"])%list).
Proof.
  assert (H1 : w_dirs failing_world !! "sample" = Some ["c.pdf"; "b.pdf"; "a.pdf"])
    by (vm_compute; reflexivity).
  assert (H2 : pdf_files ["c.pdf"; "b.pdf"; "a.pdf"] = (["a.pdf"] ++ "b.pdf" :: ["c.pdf"])%list)
    by (vm_compute; reflexivity).
  assert (H3 : all_known failing_world "sample"
                 (dom (if false then ∅ else store_contents failing_world)) ["a.pdf"]).
  { intros g Hg. apply list_elem_of_singleton in Hg as ->.
    eexists; split; [reflexivity|].
    refine (bool_decide_unpack _ _). vm_compute. reflexivity. }
  assert (H4 : w_chunks failing_world "sample" "b.pdf" = None \/
    exists cs, w_chunks failing_world "sample" "b.pdf" = Some cs /\
      Exists (fun id => id ∉ dom (if false then ∅ else store_contents failing_world))
             (computed_ids cs)) by (left; reflexivity).
  split; [exact H1|]. split; [exact H2|]. split; [exact H3|]. split; [exact H4|].
  exact (main_stops_at_first_failure false "sample" failing_world _ _ _ _ H1 H2 H3 H4).
Defined.

Lemma main_no_reset_keeps_entries_witness :
  store_contents sample_world !! "a.pdf:0:0" = Some (doc "t" "a.pdf" 0) /\
  store_contents (main false "sample" sample_world).2 !! "a.pdf:0:0"
    = Some (doc "t" "a.pdf" 0).
Proof.
  assert (H : store_contents sample_world !! "a.pdf:0:0" = Some (doc "t" "a.pdf" 0))
    by (vm_compute; reflexivity).
  split; [exact H|]. exact (main_no_reset_keeps_entries _ _ _ _ H).
Defined.
